(** * Smart parking firmware: entrance camera and slot camera

    A shallow embedding of the two ESP32-CAM sketches
    [SmartParking_Entrance.ino] and [SmartParking_SlotCamera.ino], and the
    properties of their detection-to-reconciliation logic.

    - [Firebase]   : the Realtime Database as the sketches use it, a store of
                     leaf paths with typed getters, setters and push lists;
    - [Roboflow]   : a deserialised classifier response;
    - [Entrance]   : [parseRoboflowResponse], [findAvailableSlot],
                     [assignSlot], [incrementCheckinCount], [logAccess],
                     [processVehicleCheckIn] and [loop];
    - [SlotCamera] : [setup], [detectVehiclePresence], [updateSlotOccupancy]
                     and [loop];
    - [Ledger], [Tracker], [Claimed] : the vocabulary of the statements;
    - [Fixtures], [Outage] : databases and environments to run the sketches on.

    A device talks to the database one call at a time. What it cannot
    control is kept in an environment [Env]: whether its [k]-th call gets
    through, and what [millis()] shows then. Every function of a sketch that
    touches the database is a state transformer over [Cloud].

    Confidences are C [float]s in the source. Only their order is ever used
    ([>] and [>=] against another confidence or a decimal constant), so a
    finite float is represented by the rational it denotes; on such values
    the comparisons of the source and those on [Q] agree. *)

From Stdlib Require Import QArith.
From stdpp Require Import gmap strings pretty list fin_maps.

Local Open Scope string_scope.
Local Open Scope Z_scope.

(* ===================================================================== *)
(** ** The Realtime Database seen from a device *)
(* ===================================================================== *)

Module Firebase.

(** A leaf of the database. *)
Inductive Value :=
| VBool (b : bool)
| VString (s : string)
| VInt (n : Z).

(** A write request sent by a sketch. *)
Inductive Request :=
| SetBool (path : string) (b : bool)
| SetString (path : string) (s : string)
| SetInt (path : string) (n : Z)
| PushString (path : string) (s : string).

Definition target (r : Request) : string :=
  match r with
  | SetBool p _ | SetString p _ | SetInt p _ | PushString p _ => p
  end.

(** What a device does not control: whether the [k]-th database call gets
    through, what [millis()] shows at that point, and its own address. *)
Record Env := {
  link : nat -> bool;
  uptime : nat -> Z;
  localIP : string
}.

(** The database together with the device's view of it: the leaves, the
    push lists ([alerts/...], [logs/access]), every write request issued so
    far (oldest first) and the number of database calls made. *)
Record Cloud := {
  db : gmap string Value;
  lists : gmap string (list string);
  issued : list Request;
  calls : nat
}.

Definition M (A : Type) : Type := Cloud -> A * Cloud.

Definition ret {A} (a : A) : M A := fun s => (a, s).

Definition bind {A B} (c : M A) (k : A -> M B) : M B :=
  fun s => let (a, s') := c s in k a s'.

Definition int32 (z : Z) : Z := (z + 2 ^ 31) mod 2 ^ 32 - 2 ^ 31.

(** The effect [f] of a request on the database, if the request arrives. *)
Definition landed {A} (arrives : bool) (f : A -> A) (a : A) : A :=
  if arrives then f a else a.

Section Calls.
Variable env : Env.

(** [millis()]: an [unsigned long] of 32 bits. *)
Definition millis : M Z := fun s => (uptime env (calls s) mod 2 ^ 32, s).

(** [Firebase.getString], [getBool] and [getInt] answer [true] only when the
    call gets through and the leaf exists with the requested type; the
    sketches then read the payload from [fbData]. The answer and the payload
    are folded into one optional result: [None] is the answer [false]. *)
Definition fetch (path : string) : M (option Value) :=
  fun s =>
    (if link env (calls s) then db s !! path else None,
     {| db := db s; lists := lists s; issued := issued s;
        calls := S (calls s) |}).

Definition getString (path : string) : M (option string) :=
  bind (fetch path) (fun v =>
    ret match v with Some (VString x) => Some x | _ => None end).

Definition getBool (path : string) : M (option bool) :=
  bind (fetch path) (fun v =>
    ret match v with Some (VBool b) => Some b | _ => None end).

Definition getInt (path : string) : M (option Z) :=
  bind (fetch path) (fun v =>
    ret match v with Some (VInt n) => Some (int32 n) | _ => None end).

(** A setter overwrites the leaf when the call gets through; the sketches
    never look at its result. *)
Definition store (r : Request) (path : string) (v : Value) : M unit :=
  fun s =>
    (tt,
     {| db := landed (link env (calls s)) <[path := v]> (db s);
        lists := lists s;
        issued := (issued s ++ [r])%list;
        calls := S (calls s) |}).

Definition setBool (path : string) (b : bool) : M unit :=
  store (SetBool path b) path (VBool b).

Definition setString (path : string) (x : string) : M unit :=
  store (SetString path x) path (VString x).

Definition setInt (path : string) (n : Z) : M unit :=
  store (SetInt path n) path (VInt n).

(** [pushString] appends to the list kept under [path]. *)
Definition pushString (path : string) (x : string) : M unit :=
  fun s =>
    (tt,
     {| db := db s;
        lists := landed (link env (calls s))
                   (fun l => <[path := (l !!! path ++ [x])%list]> l)
                   (lists s);
        issued := (issued s ++ [PushString path x])%list;
        calls := S (calls s) |}).
End Calls.

End Firebase.

Import Firebase.

Notation "'let*' x ':=' c 'in' k" := (bind c (fun x => k))
  (at level 10, x name, c at level 100, k at level 200).
Notation "c ';;' k" := (bind c (fun _ => k))
  (at level 100, k at level 200, right associativity).

(** Arduino's [String(n)] for an integer: its decimal digits. *)
Definition String_of (n : Z) : string := pretty n.

(** ArduinoJson's [serializeJson] on a flat object of strings and integers:
    members in insertion order, strings quoted and escaped. The document is
    taken to hold its five members (the 256 bytes of [logDoc] are enough for
    the labels and the plate marker the sketch produces). *)
Module JsonText.

Definition quote : string := String (Ascii.ascii_of_nat 34) EmptyString.
Definition backslash : Ascii.ascii := Ascii.ascii_of_nat 92.

Definition escape_char (c : Ascii.ascii) : string :=
  match Ascii.nat_of_ascii c with
  | 34%nat => String backslash quote
  | 92%nat => String backslash (String backslash EmptyString)
  | 8%nat => String backslash "b"
  | 12%nat => String backslash "f"
  | 10%nat => String backslash "n"
  | 13%nat => String backslash "r"
  | 9%nat => String backslash "t"
  | _ => String c EmptyString
  end.

Fixpoint escape (x : string) : string :=
  match x with
  | EmptyString => EmptyString
  | String c rest => escape_char c +:+ escape rest
  end.

Inductive Member :=
| Str (x : string)
| Int (n : Z).

Definition member (kv : string * Member) : string :=
  quote +:+ escape (fst kv) +:+ quote +:+ ":" +:+
  match snd kv with
  | Str x => quote +:+ escape x +:+ quote
  | Int n => String_of n
  end.

Fixpoint members (kvs : list (string * Member)) : string :=
  match kvs with
  | [] => EmptyString
  | [kv] => member kv
  | kv :: rest => member kv +:+ "," +:+ members rest
  end.

Definition serializeJson (doc : list (string * Member)) : string :=
  "{" +:+ members doc +:+ "}".

End JsonText.

(* ===================================================================== *)
(** ** The classifier's answer *)
(* ===================================================================== *)

Module Roboflow.

Record Prediction := {
  cls : string;
  conf : Q
}.

(** What [deserializeJson] makes of a response body: an error, or a
    document whose ["predictions"] array is iterated in order. *)
Inductive Json :=
| Malformed
| Document (predictions : list Prediction).

(** What one pass of [loop] gets from the camera and the classifier. *)
Inductive Shot :=
| CaptureFailed
| EmptyResponse
| Body (json : Json).

Definition is_vehicle (c : string) : bool :=
  String.eqb c "car" || String.eqb c "motorcycle" || String.eqb c "truck".

(** [a > b] and [a >= b] on confidences. *)
Definition gt (a b : Q) : bool := negb (Qle_bool a b).
Definition ge (a b : Q) : bool := Qle_bool b a.

End Roboflow.

Import Roboflow.

(* ===================================================================== *)
(** ** SmartParking_Entrance.ino *)
(* ===================================================================== *)

Module Entrance.

Definition CAMERA_ID : string := "entrance".
Definition CONFIDENCE_THRESHOLD : Q := 55 # 100.
Definition DETECTION_COOLDOWN_MS : Z := 5000.
Definition HEARTBEAT_INTERVAL : Z := 30000.

(** The three by-reference results of [parseRoboflowResponse]. *)
Record Detection := {
  vehicleType : string;
  licensePlate : string;
  confidence : Q
}.

Definition parse_prediction (acc : Detection) (pred : Prediction) : Detection :=
  let acc1 :=
    if is_vehicle (cls pred) && gt (conf pred) (confidence acc)
    then {| vehicleType := cls pred;
            licensePlate := licensePlate acc;
            confidence := conf pred |}
    else acc in
  if String.eqb (cls pred) "license_plate" && gt (conf pred) (5 # 10)
  then {| vehicleType := vehicleType acc1;
          licensePlate := "PLATE_DETECTED";
          confidence := confidence acc1 |}
  else acc1.

Definition parseRoboflowResponse (json : Json) (acc : Detection) : Detection :=
  match json with
  | Malformed => acc
  | Document predictions => fold_left parse_prediction predictions acc
  end.

(** The values [loop] passes in: [""], [""] and [0.0]. *)
Definition no_detection : Detection :=
  {| vehicleType := ""; licensePlate := ""; confidence := 0 |}.

Definition slot_path (i : Z) : string := "parking_spots/slot_" +:+ String_of i.

Section Sketch.
Variable env : Env.

(** The body of [for (int i = 0; i <= 10; i++)], with [todo] passes left
    starting at slot [i]. *)
Fixpoint scan (todo : nat) (i : Z) (vehicleType : string) : M Z :=
  match todo with
  | O => ret (-1)
  | S todo' =>
      let path := slot_path i in
      let* t := getString env (path +:+ "/type") in
      match t with
      | Some slotType =>
          if String.eqb slotType vehicleType then
            let* o := getBool env (path +:+ "/occupied") in
            match o with
            | Some false => ret i
            | _ => scan todo' (i + 1) vehicleType
            end
          else scan todo' (i + 1) vehicleType
      | None => scan todo' (i + 1) vehicleType
      end
  end.

Definition findAvailableSlot (vehicleType : string) : M Z :=
  scan 11 0 vehicleType.

Definition assignSlot (slotId : Z) (vehicleType licensePlate : string) : M unit :=
  let path := slot_path slotId in
  setBool env (path +:+ "/occupied") true ;;
  setString env (path +:+ "/vehicle_type") vehicleType ;;
  setString env (path +:+ "/license_plate") licensePlate ;;
  let* now := millis env in
  setInt env (path +:+ "/entry_time") (now / 1000).

Definition incrementCheckinCount (vehicleType : string) : M unit :=
  let path := "checkin_count/" +:+ vehicleType in
  let* c := getInt env path in
  match c with
  | Some current => setInt env path (int32 (current + 1))
  | None => ret tt
  end.

Definition logAccess (action vehicleType plate : string) (slotId : Z) : M unit :=
  let* now := millis env in
  let logDoc :=
    [("action", JsonText.Str action);
     ("type", JsonText.Str vehicleType);
     ("plate", JsonText.Str plate);
     ("slot", JsonText.Int slotId);
     ("timestamp", JsonText.Int (now / 1000))] in
  pushString env "logs/access" (JsonText.serializeJson logDoc).

Definition full_capacity_alert (vehicleType : string) (now : Z) : string :=
  vehicleType +:+ " parking full — " +:+ String_of now.

Definition processVehicleCheckIn (vehicleType licensePlate : string) : M unit :=
  let* slotId := findAvailableSlot vehicleType in
  if 0 <=? slotId then
    assignSlot slotId vehicleType licensePlate ;;
    incrementCheckinCount vehicleType ;;
    logAccess "CHECK_IN" vehicleType licensePlate slotId
  else
    let* now := millis env in
    pushString env "alerts/full_capacity" (full_capacity_alert vehicleType now).

Definition sendHeartbeat : M unit :=
  let basePath := "cameras/" +:+ CAMERA_ID in
  setString env (basePath +:+ "/status") "online" ;;
  let* now := millis env in
  setInt env (basePath +:+ "/last_heartbeat") (now / 1000).

(** The two [unsigned long] globals of the sketch. *)
Record Device := {
  lastDetectionTime : Z;
  lastHeartbeatTime : Z
}.

(** [a - b] on [unsigned long]. *)
Definition elapsed (a b : Z) : Z := (a - b) mod 2 ^ 32.

(** The part of [loop] after the cooldown test. *)
Definition detect (shot : Shot) (d : Device) : M Device :=
  match shot with
  | CaptureFailed => ret d
  | EmptyResponse => ret d
  | Body jsonResponse =>
      let r := parseRoboflowResponse jsonResponse no_detection in
      if negb (String.eqb (vehicleType r) EmptyString)
         && ge (confidence r) CONFIDENCE_THRESHOLD
      then
        processVehicleCheckIn (vehicleType r) (licensePlate r) ;;
        let* now := millis env in
        ret {| lastDetectionTime := now;
               lastHeartbeatTime := lastHeartbeatTime d |}
      else ret d
  end.

Definition loop (shot : Shot) (d : Device) : M Device :=
  let* t0 := millis env in
  let* d1 :=
    if HEARTBEAT_INTERVAL <? elapsed t0 (lastHeartbeatTime d) then
      sendHeartbeat ;;
      let* t1 := millis env in
      ret {| lastDetectionTime := lastDetectionTime d;
             lastHeartbeatTime := t1 |}
    else ret d in
  let* t2 := millis env in
  if elapsed t2 (lastDetectionTime d1) <? DETECTION_COOLDOWN_MS
  then ret d1
  else detect shot d1.
End Sketch.

End Entrance.

(* ===================================================================== *)
(** ** SmartParking_SlotCamera.ino *)
(* ===================================================================== *)

Module SlotCamera.

Definition SLOT_ID : Z := 0.
Definition CAMERA_ID : string := "slot_cam_0".
Definition CHECK_INTERVAL_MS : Z := 15000.
Definition CONFIDENCE_THRESHOLD : Q := 50 # 100.

Definition slot_path : string := "parking_spots/slot_" +:+ String_of SLOT_ID.

(** The globals of the sketch. *)
Record Device := {
  previousOccupied : bool;
  lastCheckTime : Z;
  lastHeartbeat : Z
}.

(** Their initial values. *)
Definition power_on : Device :=
  {| previousOccupied := false; lastCheckTime := 0; lastHeartbeat := 0 |}.

Definition elapsed (a b : Z) : Z := (a - b) mod 2 ^ 32.

Fixpoint any_vehicle (predictions : list Prediction) : bool :=
  match predictions with
  | [] => false
  | pred :: rest =>
      if is_vehicle (cls pred) && ge (conf pred) CONFIDENCE_THRESHOLD
      then true
      else any_vehicle rest
  end.

Definition detectVehiclePresence (json : Json) : bool :=
  match json with
  | Malformed => false
  | Document predictions => any_vehicle predictions
  end.

Section Sketch.
Variable env : Env.

Definition initFirebase : M unit :=
  let basePath := "cameras/" +:+ CAMERA_ID in
  setString env (basePath +:+ "/status") "online" ;;
  setString env (basePath +:+ "/ip_address") (localIP env) ;;
  setString env (basePath +:+ "/stream_url")
    ("http://" +:+ localIP env +:+ ":81/stream").

(** [setup] once the camera and the network are up (a failure of either
    restarts the board before this point). *)
Definition setup (d : Device) : M Device :=
  initFirebase ;;
  let path := slot_path +:+ "/occupied" in
  let* r := getBool env path in
  match r with
  | Some b => ret {| previousOccupied := b;
                     lastCheckTime := lastCheckTime d;
                     lastHeartbeat := lastHeartbeat d |}
  | None => ret d
  end.

Definition updateSlotOccupancy (occupied : bool) : M unit :=
  let path := slot_path in
  setBool env (path +:+ "/occupied") occupied ;;
  if occupied then
    let* now := millis env in
    setInt env (path +:+ "/entry_time") (now / 1000)
  else
    setString env (path +:+ "/vehicle_type") EmptyString ;;
    setString env (path +:+ "/license_plate") EmptyString ;;
    setInt env (path +:+ "/entry_time") 0.

Definition heartbeat (d : Device) : M Device :=
  let* t0 := millis env in
  if 30000 <? elapsed t0 (lastHeartbeat d) then
    setString env ("cameras/" +:+ CAMERA_ID +:+ "/status") "online" ;;
    let* t1 := millis env in
    setInt env ("cameras/" +:+ CAMERA_ID +:+ "/last_heartbeat") (t1 / 1000) ;;
    let* t2 := millis env in
    ret {| previousOccupied := previousOccupied d;
           lastCheckTime := lastCheckTime d;
           lastHeartbeat := t2 |}
  else ret d.

(** The part of [loop] after the check interval has passed and
    [lastCheckTime] has been reset. *)
Definition poll (shot : Shot) (d : Device) : M Device :=
  match shot with
  | CaptureFailed => ret d
  | EmptyResponse => ret d
  | Body response =>
      let nowOccupied := detectVehiclePresence response in
      if negb (Bool.eqb nowOccupied (previousOccupied d)) then
        updateSlotOccupancy nowOccupied ;;
        ret {| previousOccupied := nowOccupied;
               lastCheckTime := lastCheckTime d;
               lastHeartbeat := lastHeartbeat d |}
      else ret d
  end.

Definition loop (shot : Shot) (d : Device) : M Device :=
  let* d1 := heartbeat d in
  let* t := millis env in
  if elapsed t (lastCheckTime d1) <? CHECK_INTERVAL_MS then ret d1
  else
    let* t' := millis env in
    poll shot {| previousOccupied := previousOccupied d1;
                 lastCheckTime := t';
                 lastHeartbeat := lastHeartbeat d1 |}.

(** The runtime calls [loop] over and over; [run] is a finite series of
    such passes, one shot each. *)
Fixpoint run (shots : list Shot) (d : Device) : M Device :=
  match shots with
  | [] => ret d
  | shot :: rest => let* d' := loop shot d in run rest d'
  end.
End Sketch.

End SlotCamera.

(* ===================================================================== *)
(** ** Vocabulary of the statements *)
(* ===================================================================== *)

Module Ledger.

Definition type_path (i : Z) : string := Entrance.slot_path i +:+ "/type".
Definition occupied_path (i : Z) : string := Entrance.slot_path i +:+ "/occupied".
Definition checkin_path (t : string) : string := "checkin_count/" +:+ t.

(** Slot [i] holds type [t] and its [occupied] leaf is [false]. *)
Definition slot_free (m : gmap string Value) (t : string) (i : Z) : Prop :=
  m !! type_path i = Some (VString t) ∧
  m !! occupied_path i = Some (VBool false).

Definition reads_free (m : gmap string Value) (t : string) (i : Z) : bool :=
  match m !! type_path i with
  | Some (VString slotType) =>
      String.eqb slotType t &&
      match m !! occupied_path i with
      | Some (VBool false) => true
      | _ => false
      end
  | _ => false
  end.

(** The lowest free slot of type [t] among [i, i + todo), or [-1]. *)
Fixpoint first_free (m : gmap string Value) (t : string) (todo : nat) (i : Z) : Z :=
  match todo with
  | O => -1
  | S todo' => if reads_free m t i then i else first_free m t todo' (i + 1)
  end.

(** The database calls numbered [from, from + n) all get through
    (or all fail). *)
Definition online (env : Env) (from n : nat) : Prop :=
  ∀ k, (from ≤ k < from + n)%nat → link env k = true.


End Ledger.

Import Ledger.

(** Vocabulary for the slot camera. *)
Module Tracker.

Definition occupied_leaf : string := SlotCamera.slot_path +:+ "/occupied".
Definition vehicle_type_leaf : string := SlotCamera.slot_path +:+ "/vehicle_type".
Definition license_plate_leaf : string := SlotCamera.slot_path +:+ "/license_plate".
Definition entry_time_leaf : string := SlotCamera.slot_path +:+ "/entry_time".

(** The requests of [updateSlotOccupancy(false)]. *)
Definition vacate : list Request :=
  [SetBool occupied_leaf false;
   SetString vehicle_type_leaf EmptyString;
   SetString license_plate_leaf EmptyString;
   SetInt entry_time_leaf 0].


(** The presence a pass decides, when it gets a response at all. *)
Definition presence (shot : Shot) : option bool :=
  match shot with
  | Body response => Some (SlotCamera.detectVehiclePresence response)
  | _ => None
  end.



End Tracker.

Import Tracker.

(** Vocabulary for the side effects of a check-in. *)
Module Claimed.

(** The four requests of [assignSlot]. *)
Definition claim (slotId : Z) (vehicleType licensePlate : string) (now : Z)
    : list Request :=
  [SetBool (Entrance.slot_path slotId +:+ "/occupied") true;
   SetString (Entrance.slot_path slotId +:+ "/vehicle_type") vehicleType;
   SetString (Entrance.slot_path slotId +:+ "/license_plate") licensePlate;
   SetInt (Entrance.slot_path slotId +:+ "/entry_time") (now / 1000)].

(** What [getInt] yields for the counter of type [t] at call [k]. *)
Definition counter_read (env : Env) (m : gmap string Value) (t : string)
    (k : nat) : option Z :=
  if link env k
  then match m !! checkin_path t with
       | Some (VInt n) => Some n
       | _ => None
       end
  else None.

End Claimed.

(** Concrete databases and environments used to run the sketches. *)
Module Fixtures.

(** A device up for a minute, one second per database call; every call
    gets through ([steady]) or none does ([blackout]). *)
Definition steady : Env :=
  {| link := fun _ => true;
     uptime := fun k => 60000 + 1000 * Z.of_nat k;
     localIP := "192.168.1.103" |}.

Definition blackout : Env :=
  {| link := fun _ => false;
     uptime := fun k => 60000 + 1000 * Z.of_nat k;
     localIP := "192.168.1.103" |}.

Definition fresh (m : gmap string Value) : Cloud :=
  {| db := m; lists := ∅; issued := []; calls := 0 |}.

Definition slot (i : Z) (t : string) (occupied : bool) (vehicle plate : string)
    (entry : Z) : list (string * Value) :=
  [(Entrance.slot_path i +:+ "/type", VString t);
   (Entrance.slot_path i +:+ "/occupied", VBool occupied);
   (Entrance.slot_path i +:+ "/vehicle_type", VString vehicle);
   (Entrance.slot_path i +:+ "/license_plate", VString plate);
   (Entrance.slot_path i +:+ "/entry_time", VInt entry)].

Definition parked (i : Z) (t : string) : list (string * Value) :=
  slot i t true t "PLATE_DETECTED" 40.
Definition vacant (i : Z) (t : string) : list (string * Value) :=
  slot i t false EmptyString EmptyString 0.

Definition counters : list (string * Value) :=
  [("checkin_count/motorcycle", VInt 0);
   ("checkin_count/car", VInt 4);
   ("checkin_count/truck", VInt 0)].

(** Six car slots, of which 2 and 5 are free. *)
Definition lot_2_5 : gmap string Value :=
  list_to_map (parked 0 "car" ++ parked 1 "car" ++ vacant 2 "car" ++
               parked 3 "car" ++ parked 4 "car" ++ vacant 5 "car" ++
               counters)%list.

(** Every car slot taken, a motorcycle slot free. *)
Definition lot_cars_full : gmap string Value :=
  list_to_map (vacant 0 "motorcycle" ++ parked 1 "car" ++ parked 2 "car" ++
               counters)%list.

(** A free car slot, and no [checkin_count] node. *)
Definition lot_no_counter : gmap string Value :=
  list_to_map (vacant 0 "car").

(** The slot camera's slot, taken. *)
Definition lot_slot0_taken : gmap string Value :=
  list_to_map (parked 0 "car").

Definition car (c : Q) : Prediction := {| cls := "car"; conf := c |}.
Definition truck (c : Q) : Prediction := {| cls := "truck"; conf := c |}.

End Fixtures.

(** A lost call during the scan. *)
Module Outage.



End Outage.

(* ===================================================================== *)
(** ** Facts about the database calls *)
(* ===================================================================== *)

Section ScanFacts.
Variable env : Env.

Lemma reads_free_iff m t i : reads_free m t i = true ↔ slot_free m t i.
Proof.
  unfold reads_free, slot_free. split.
  - destruct (m !! type_path i) as [[| x |]|]; try discriminate.
    destruct (String.eqb x t) eqn:E; try discriminate.
    apply String.eqb_eq in E. subst x.
    destruct (m !! occupied_path i) as [[[]| |]|]; try discriminate. done.
  - intros [-> ->]. by rewrite String.eqb_refl.
Qed.

Lemma reads_free_false m t i : reads_free m t i = false ↔ ¬ slot_free m t i.
Proof.
  rewrite <- reads_free_iff. destruct (reads_free m t i); split; done.
Qed.

(** The scan only reads: it leaves the database, the push lists and the
    request log as they are, and makes at most two calls per slot. *)
Lemma scan_frame todo : ∀ i t s,
  let s' := snd (Entrance.scan env todo i t s) in
  db s' = db s ∧ lists s' = lists s ∧ issued s' = issued s ∧
  (calls s ≤ calls s' ≤ calls s + 2 * todo)%nat.
Proof.
  induction todo as [|todo IH]; intros i t s; simpl.
  - repeat split; lia.
  - unfold bind, getString, getBool, fetch, ret. simpl.
    pose proof (IH (i + 1) t
      {| db := db s; lists := lists s; issued := issued s;
         calls := S (calls s) |}) as H1.
    pose proof (IH (i + 1) t
      {| db := db s; lists := lists s; issued := issued s;
         calls := S (S (calls s)) |}) as H2.
    simpl in H1, H2.
    destruct H1 as (? & ? & ? & ?), H2 as (? & ? & ? & ?).
    destruct (link env (calls s)); [|repeat split; first [done | lia]].
    destruct (db s !! _) as [[| x |]|]; try (repeat split; first [done | lia]).
    destruct (String.eqb x t); simpl; [|repeat split; first [done | lia]].
    destruct (link env (S (calls s))); [|repeat split; first [done | lia]].
    destruct (db s !! _) as [[[]| |]|]; simpl;
      repeat split; first [done | lia].
Qed.

(** While the calls get through, the scan computes [first_free]. *)
Lemma scan_online todo : ∀ i t s,
  online env (calls s) (2 * todo) →
  fst (Entrance.scan env todo i t s) = first_free (db s) t todo i.
Proof.
  induction todo as [|todo IH]; intros i t s Hup; simpl; [done|].
  unfold bind, getString, getBool, fetch, ret. simpl.
  assert (L1 : link env (calls s) = true) by (apply Hup; lia).
  assert (L2 : link env (S (calls s)) = true) by (apply Hup; lia).
  rewrite L1. unfold reads_free, type_path, occupied_path.
  pose proof (IH (i + 1) t
    {| db := db s; lists := lists s; issued := issued s;
       calls := S (calls s) |}) as H1.
  pose proof (IH (i + 1) t
    {| db := db s; lists := lists s; issued := issued s;
       calls := S (S (calls s)) |}) as H2.
  simpl in H1, H2.
  specialize (H1 ltac:(intros k Hk; apply Hup; lia)).
  specialize (H2 ltac:(intros k Hk; apply Hup; lia)).
  destruct (db s !! _) as [[| x |]|]; try done.
  destruct (String.eqb x t); simpl; [|done].
  rewrite L2.
  destruct (db s !! _) as [[[]| |]|]; done.
Qed.


Lemma first_free_range m t todo : ∀ i,
  let r := first_free m t todo i in
  (r = -1 ∧ ∀ j, i ≤ j < i + Z.of_nat todo → ¬ slot_free m t j) ∨
  (i ≤ r < i + Z.of_nat todo ∧ slot_free m t r ∧
   ∀ j, i ≤ j < r → ¬ slot_free m t j).
Proof.
  induction todo as [|todo IH]; intros i; simpl.
  - left. split; [done|]. intros j Hj. lia.
  - destruct (reads_free m t i) eqn:E.
    + right. apply reads_free_iff in E. repeat split; try lia; try apply E.
    + apply reads_free_false in E.
      destruct (IH (i + 1)) as [[-> Hn]|(Hr & Hf & Hm)].
      * left. split; [done|]. intros j Hj.
        destruct (decide (j = i)) as [->|]; [done|]. apply Hn. lia.
      * right. repeat split; try lia; try apply Hf.
        intros j Hj. destruct (decide (j = i)) as [->|]; [done|].
        apply Hm. lia.
Qed.
End ScanFacts.

Section CheckInFacts.
Variable env : Env.

(** A slot the scan returns was read as free, whatever the calls did. *)
Lemma scan_sound todo : ∀ i t s,
  let r := fst (Entrance.scan env todo i t s) in
  r = -1 ∨ (i ≤ r < i + Z.of_nat todo ∧ slot_free (db s) t r).
Proof.
  induction todo as [|todo IH]; intros i t s; simpl; [by left|].
  unfold bind, getString, getBool, fetch, ret. simpl.
  pose proof (IH (i + 1) t
    {| db := db s; lists := lists s; issued := issued s;
       calls := S (calls s) |}) as H1.
  pose proof (IH (i + 1) t
    {| db := db s; lists := lists s; issued := issued s;
       calls := S (S (calls s)) |}) as H2.
  simpl in H1, H2.
  assert (∀ r' : Z, (r' = -1 ∨ i + 1 ≤ r' < i + 1 + Z.of_nat todo ∧
                      slot_free (db s) t r') →
          r' = -1 ∨ i ≤ r' < i + Z.pos (Pos.of_succ_nat todo) ∧
                     slot_free (db s) t r') as Hw.
  { intros r' [->|[? ?]]; [by left|right]. split; [lia|done]. }
  unfold slot_free, type_path, occupied_path.
  destruct (link env (calls s)); [|by apply Hw].
  destruct (db s !! _) as [[| x |]|] eqn:Et; try by apply Hw.
  destruct (String.eqb x t) eqn:E; simpl; [|by apply Hw].
  apply String.eqb_eq in E. subst x.
  destruct (link env (S (calls s))); [|by apply Hw].
  destruct (db s !! (_ +:+ "/occupied")) as [[[]| |]|] eqn:Eo; simpl;
    try by apply Hw.
  right. repeat split; first [lia | done].
Qed.

(** With no slot to give, the check-in is one push on the alert list. *)
Lemma checkin_without_slot t plate s :
  fst (Entrance.findAvailableSlot env t s) = -1 →
  let s1 := snd (Entrance.findAvailableSlot env t s) in
  let alert :=
    Entrance.full_capacity_alert t (uptime env (calls s1) mod 2 ^ 32) in
  Entrance.processVehicleCheckIn env t plate s =
  (tt,
   {| db := db s;
      lists := landed (link env (calls s1))
                 (fun l => <["alerts/full_capacity" :=
                               (l !!! "alerts/full_capacity" ++ [alert])%list]> l)
                 (lists s);
      issued := (issued s ++ [PushString "alerts/full_capacity" alert])%list;
      calls := S (calls s1) |}).
Proof.
  intros Hr. unfold Entrance.processVehicleCheckIn, bind.
  pose proof (scan_frame env 11 0 t s) as (Hdb & Hl & Hi & _).
  fold (Entrance.findAvailableSlot env t s) in Hdb, Hl, Hi.
  destruct (Entrance.findAvailableSlot env t s) as [r s1]. simpl in *.
  subst r. simpl. unfold millis, pushString. by rewrite Hdb, Hl, Hi.
Qed.
End CheckInFacts.

(* ===================================================================== *)
(** ** The Allocator *)
(* ===================================================================== *)

(** C1. First-fit allocation: whenever the scan range 0..10 holds a slot [i]
    whose type is the vehicle type and whose [occupied] leaf reads [false],
    [findAvailableSlot] returns the smallest such slot id. The reads are
    those of one scan (22 calls at most), all answered. *)
Theorem findAvailableSlot_first_fit (env : Env) (t : string) (s : Cloud) (i : Z) :
  0 ≤ i ≤ 10 →
  slot_free (db s) t i →
  online env (calls s) 22 →
  let r := fst (Entrance.findAvailableSlot env t s) in
  0 ≤ r ≤ i ∧ slot_free (db s) t r ∧
  ∀ j, 0 ≤ j < r → ¬ slot_free (db s) t j.
Proof.
  intros Hi Hfree Hup r. subst r. unfold Entrance.findAvailableSlot.
  rewrite (scan_online env 11 0 t s Hup).
  destruct (first_free_range (db s) t 11 0) as [[_ Hn]|(Hr & Hf & Hm)].
  - exfalso. apply (Hn i); [lia | done].
  - repeat split; try lia; try apply Hf; [|done].
    destruct (Z_le_gt_dec (first_free (db s) t 11 0) i) as [|Hgt]; [done|].
    exfalso. apply (Hm i); [lia | done].
Qed.

(** With car slots 2 and 5 free and the others taken, the slot found is the
    lowest free one, slot 2. *)
Lemma findAvailableSlot_first_fit_2_5 :
  slot_free Fixtures.lot_2_5 "car" 2 ∧
  slot_free Fixtures.lot_2_5 "car" 5 ∧
  (let r := fst (Entrance.findAvailableSlot Fixtures.steady "car"
                   (Fixtures.fresh Fixtures.lot_2_5)) in
   0 ≤ r ≤ 5 ∧ slot_free Fixtures.lot_2_5 "car" r ∧
   ∀ j, 0 ≤ j < r → ¬ slot_free Fixtures.lot_2_5 "car" j) ∧
  fst (Entrance.findAvailableSlot Fixtures.steady "car"
         (Fixtures.fresh Fixtures.lot_2_5)) = 2.
Proof.
  split; [split; vm_compute; reflexivity|].
  split; [split; vm_compute; reflexivity|].
  split; [|vm_compute; reflexivity].
  apply (findAvailableSlot_first_fit Fixtures.steady "car"
           (Fixtures.fresh Fixtures.lot_2_5) 5).
  - lia.
  - split; vm_compute; reflexivity.
  - intros k _. reflexivity.
Defined.

(** C2. Capacity exhaustion: when every slot of the vehicle's type in the
    scan range is occupied, [findAvailableSlot] answers [-1] and
    [processVehicleCheckIn] issues exactly one request, a push of the alert
    on [alerts/full_capacity]: no leaf of the database changes (no slot
    field, no check-in counter), and no other push list (so no access log)
    changes. The alert list grows by that one alert when the push gets
    through. *)
Theorem checkin_capacity_exhausted (env : Env) (t plate : string) (s : Cloud) :
  (∀ i, 0 ≤ i ≤ 10 →
        db s !! type_path i = Some (VString t) →
        db s !! occupied_path i = Some (VBool true)) →
  fst (Entrance.findAvailableSlot env t s) = -1 ∧
  ∃ now : Z,
    let alert := Entrance.full_capacity_alert t now in
    let s' := snd (Entrance.processVehicleCheckIn env t plate s) in
    issued s' = (issued s ++ [PushString "alerts/full_capacity" alert])%list ∧
    db s' = db s ∧
    (∀ p, p ≠ "alerts/full_capacity" → lists s' !! p = lists s !! p) ∧
    lists s' !!! "alerts/full_capacity" =
      if link env (pred (calls s'))
      then (lists s !!! "alerts/full_capacity" ++ [alert])%list
      else lists s !!! "alerts/full_capacity".
Proof.
  intros Hfull.
  assert (Hr : fst (Entrance.findAvailableSlot env t s) = -1).
  { destruct (scan_sound env 11 0 t s) as [H|[Hrange [Ht Ho]]]; [done|].
    exfalso. apply Hfull in Ht; [|lia]. rewrite Ht in Ho. discriminate. }
  split; [done|].
  eexists. rewrite (checkin_without_slot env t plate s Hr). simpl.
  repeat split.
  - intros p Hp. unfold landed. destruct (link env _); [|done].
    by rewrite lookup_insert_ne.
  - unfold landed. destruct (link env _); [|done].
    unfold lookup_total, map_lookup_total. by rewrite lookup_insert_eq.
Qed.

Lemma checkin_capacity_exhausted_cars_full :
  fst (Entrance.findAvailableSlot Fixtures.steady "car"
         (Fixtures.fresh Fixtures.lot_cars_full)) = -1 ∧
  ∃ now : Z,
    let alert := Entrance.full_capacity_alert "car" now in
    let s' := snd (Entrance.processVehicleCheckIn Fixtures.steady "car"
                     "PLATE_DETECTED" (Fixtures.fresh Fixtures.lot_cars_full)) in
    issued s' = [PushString "alerts/full_capacity" alert] ∧
    db s' = Fixtures.lot_cars_full ∧
    (∀ p, p ≠ "alerts/full_capacity" → lists s' !! p = (∅ : gmap string (list string)) !! p) ∧
    lists s' !!! "alerts/full_capacity" =
      if link Fixtures.steady (pred (calls s'))
      then ((∅ : gmap string (list string)) !!! "alerts/full_capacity" ++ [alert])%list
      else (∅ : gmap string (list string)) !!! "alerts/full_capacity".
Proof.
  apply (checkin_capacity_exhausted Fixtures.steady "car" "PLATE_DETECTED"
           (Fixtures.fresh Fixtures.lot_cars_full)).
  intros i Hi.
  assert (i = 0 ∨ i = 1 ∨ i = 2 ∨ i = 3 ∨ i = 4 ∨ i = 5 ∨ i = 6 ∨ i = 7 ∨
          i = 8 ∨ i = 9 ∨ i = 10) as Hcases by lia.
  repeat (destruct Hcases as [->|Hcases]); try subst i;
    vm_compute; intros H; first [discriminate H | reflexivity].
Defined.

(* ===================================================================== *)
(** ** The Detection Interpreter *)
(* ===================================================================== *)

Section ParseFacts.

Lemma gt_iff a b : gt a b = true ↔ (b < a)%Q.
Proof.
  unfold gt. rewrite negb_true_iff. split.
  - intros H. apply Qnot_le_lt. intros Hle.
    apply Qle_bool_iff in Hle. congruence.
  - intros H. destruct (Qle_bool a b) eqn:E; [|done].
    apply Qle_bool_iff in E. exfalso. by apply (Qlt_not_le b a).
Qed.

Lemma gt_false a b : gt a b = false ↔ (a <= b)%Q.
Proof. unfold gt. rewrite negb_false_iff. apply Qle_bool_iff. Qed.

Lemma ge_false a b : ge a b = false ↔ (a < b)%Q.
Proof.
  unfold ge. split.
  - intros H. apply Qnot_le_lt. intros Hle.
    apply Qle_bool_iff in Hle. congruence.
  - intros H. destruct (Qle_bool b a) eqn:E; [|done].
    apply Qle_bool_iff in E. exfalso. by apply (Qlt_not_le a b).
Qed.

(** The plate test never touches the vehicle fields. *)
Lemma parse_prediction_vehicle acc pred :
  let acc' := Entrance.parse_prediction acc pred in
  if is_vehicle (cls pred) && gt (conf pred) (Entrance.confidence acc)
  then Entrance.vehicleType acc' = cls pred ∧
       Entrance.confidence acc' = conf pred
  else Entrance.vehicleType acc' = Entrance.vehicleType acc ∧
       Entrance.confidence acc' = Entrance.confidence acc.
Proof.
  unfold Entrance.parse_prediction.
  destruct (is_vehicle (cls pred) && gt (conf pred) (Entrance.confidence acc));
    destruct (String.eqb (cls pred) "license_plate" && gt (conf pred) (5 # 10));
    done.
Qed.

(** Candidates below a bound keep the running confidence below it. *)
Lemma parse_below (c : Q) preds : ∀ acc,
  (Entrance.confidence acc < c)%Q →
  (∀ q, q ∈ preds → is_vehicle (cls q) = true → (conf q < c)%Q) →
  (Entrance.confidence (fold_left Entrance.parse_prediction preds acc) < c)%Q.
Proof.
  induction preds as [|q preds IH]; intros acc Hacc Hall; simpl; [done|].
  apply IH.
  - pose proof (parse_prediction_vehicle acc q) as H. simpl in H.
    destruct (is_vehicle (cls q)) eqn:Ev; simpl in H.
    + destruct (gt (conf q) (Entrance.confidence acc));
        destruct H as [_ ->]; [|done].
      apply Hall; [apply elem_of_cons; by left | done].
    + by destruct H as [_ ->].
  - intros q' Hq'. apply Hall. apply elem_of_cons. by right.
Qed.

(** Candidates that do not exceed the running confidence change nothing. *)
Lemma parse_not_above preds : ∀ acc,
  (∀ q, q ∈ preds → is_vehicle (cls q) = true →
        (conf q <= Entrance.confidence acc)%Q) →
  let r := fold_left Entrance.parse_prediction preds acc in
  Entrance.vehicleType r = Entrance.vehicleType acc ∧
  Entrance.confidence r = Entrance.confidence acc.
Proof.
  induction preds as [|q preds IH]; intros acc Hall; simpl; [done|].
  pose proof (parse_prediction_vehicle acc q) as H. simpl in H.
  assert (is_vehicle (cls q) && gt (conf q) (Entrance.confidence acc) = false)
    as E.
  { destruct (is_vehicle (cls q)) eqn:Ev; [|done]. simpl.
    apply gt_false. apply Hall; [apply elem_of_cons; by left | done]. }
  rewrite E in H. destruct H as [Hv Hc].
  destruct (IH (Entrance.parse_prediction acc q)) as [Hv' Hc'].
  - intros q' Hq' Hveh. rewrite Hc. apply Hall; [|done].
    apply elem_of_cons. by right.
  - simpl in Hv', Hc'. by rewrite Hv', Hc'.
Qed.

(** What is reported is what came in, or the fields of a candidate seen. *)
Lemma parse_picks preds : ∀ acc,
  let r := fold_left Entrance.parse_prediction preds acc in
  (Entrance.vehicleType r = Entrance.vehicleType acc ∧
   Entrance.confidence r = Entrance.confidence acc) ∨
  (∃ p, p ∈ preds ∧ is_vehicle (cls p) = true ∧
        Entrance.vehicleType r = cls p ∧ Entrance.confidence r = conf p).
Proof.
  induction preds as [|q preds IH]; intros acc; simpl; [by left|].
  pose proof (parse_prediction_vehicle acc q) as H. simpl in H.
  destruct (IH (Entrance.parse_prediction acc q))
    as [[Hv Hc]|(p & Hp & Hveh & Hv & Hc)]; simpl in *.
  - destruct (is_vehicle (cls q)) eqn:Ev; simpl in H.
    + destruct (gt (conf q) (Entrance.confidence acc)); destruct H as [Hv' Hc'].
      * right. exists q. split; [apply elem_of_cons; by left|].
        split; [done|]. split; congruence.
      * left. split; congruence.
    + destruct H as [Hv' Hc']. left. split; congruence.
  - right. exists p. split; [apply elem_of_cons; by right | done].
Qed.
End ParseFacts.

(** C3, as the sketch has it. [parseRoboflowResponse] applies no floor (it
    reports a candidate of confidence 0.45); the floor is the test made by
    [loop] on its result, [bestConfidence >= CONFIDENCE_THRESHOLD]. When
    every vehicle candidate of the response is strictly below the threshold,
    the pass runs no check-in: the detection step leaves the device and the
    database as they were, and the whole pass is the one of a failed
    capture. And whenever the reported confidence passes the test, the
    reported type and confidence are those of a vehicle candidate of the
    response, which is therefore at or above the threshold. *)
Theorem confidence_floor_at_the_gate (env : Env) (preds : list Prediction) :
  ((∀ q, q ∈ preds → is_vehicle (cls q) = true →
         (conf q < Entrance.CONFIDENCE_THRESHOLD)%Q) →
   ∀ d s,
     Entrance.detect env (Body (Document preds)) d s = (d, s) ∧
     Entrance.loop env (Body (Document preds)) d s =
     Entrance.loop env CaptureFailed d s) ∧
  (let r := Entrance.parseRoboflowResponse (Document preds)
              Entrance.no_detection in
   ge (Entrance.confidence r) Entrance.CONFIDENCE_THRESHOLD = true →
   ∃ p, p ∈ preds ∧ is_vehicle (cls p) = true ∧
        Entrance.vehicleType r = cls p ∧
        (Entrance.CONFIDENCE_THRESHOLD <= conf p)%Q).
Proof.
  split.
  - intros Hlow.
    assert (∀ d0 s0,
              Entrance.detect env (Body (Document preds)) d0 s0 = (d0, s0))
      as Hdetect.
    { intros d0 s0. unfold Entrance.detect. simpl.
      pose proof (parse_below Entrance.CONFIDENCE_THRESHOLD preds
                    Entrance.no_detection) as Hb.
      apply ge_false in Hb; [|done|done].
      rewrite Hb. by rewrite andb_false_r. }
    intros d s. split; [apply Hdetect|].
    unfold Entrance.loop, bind.
    destruct (millis env s) as [t0 s0].
    match goal with |- context [let (_, _) := ?c s0 in _] =>
      destruct (c s0) as [d1 s1] end.
    destruct (millis env s1) as [t2 s2].
    destruct (_ <? _); [done|]. by rewrite Hdetect.
  - simpl. intros Hge.
    destruct (parse_picks preds Entrance.no_detection)
      as [[_ Hc]|(p & Hp & Hveh & Hv & Hc)]; simpl in *.
    + rewrite Hc in Hge. discriminate.
    + exists p. repeat split; try done.
      rewrite <- Hc. by apply Qle_bool_iff.
Qed.

Lemma confidence_floor_at_the_gate_car_045 :
  let preds := [Fixtures.car (45 # 100)] in
  let d := {| Entrance.lastDetectionTime := 0; Entrance.lastHeartbeatTime := 0 |} in
  let s := Fixtures.fresh Fixtures.lot_2_5 in
  (∀ q, q ∈ preds → is_vehicle (cls q) = true →
        (conf q < Entrance.CONFIDENCE_THRESHOLD)%Q) ∧
  Entrance.detect Fixtures.steady (Body (Document preds)) d s = (d, s) ∧
  Entrance.loop Fixtures.steady (Body (Document preds)) d s =
  Entrance.loop Fixtures.steady CaptureFailed d s.
Proof.
  assert (∀ q, q ∈ [Fixtures.car (45 # 100)] → is_vehicle (cls q) = true →
               (conf q < Entrance.CONFIDENCE_THRESHOLD)%Q) as Hlow.
  { intros q Hq _. apply list_elem_of_singleton in Hq. subst q. reflexivity. }
  split; [exact Hlow|].
  exact (proj1 (confidence_floor_at_the_gate Fixtures.steady
                  [Fixtures.car (45 # 100)]) Hlow _ _).
Defined.

(** The interpreter alone reports a candidate that is under the floor. *)
Lemma parse_reports_below_floor :
  (45 # 100 < Entrance.CONFIDENCE_THRESHOLD)%Q ∧
  Entrance.vehicleType
    (Entrance.parseRoboflowResponse (Document [Fixtures.car (45 # 100)])
       Entrance.no_detection) = "car".
Proof. split; reflexivity. Qed.

(** C4, as the sketch has it. Among vehicle candidates, the one reported is
    the first that reaches the maximal confidence, provided that confidence
    is above 0, the value [loop] starts from: later candidates of equal
    confidence do not replace it. *)
Theorem parse_keeps_first_maximum (l1 l2 : list Prediction) (p : Prediction) :
  is_vehicle (cls p) = true →
  (0 < conf p)%Q →
  (∀ q, q ∈ l1 → is_vehicle (cls q) = true → (conf q < conf p)%Q) →
  (∀ q, q ∈ l2 → is_vehicle (cls q) = true → (conf q <= conf p)%Q) →
  let r := Entrance.parseRoboflowResponse (Document (l1 ++ p :: l2))
             Entrance.no_detection in
  Entrance.vehicleType r = cls p ∧ Entrance.confidence r = conf p.
Proof.
  intros Hveh Hpos Hbefore Hafter. simpl. rewrite fold_left_app. simpl.
  set (acc := fold_left Entrance.parse_prediction l1 Entrance.no_detection).
  assert (Entrance.confidence acc < conf p)%Q as Hacc
    by (by apply parse_below).
  pose proof (parse_prediction_vehicle acc p) as Hp. simpl in Hp.
  apply gt_iff in Hacc. rewrite Hveh, Hacc in Hp. simpl in Hp.
  destruct Hp as [Hv Hc].
  destruct (parse_not_above l2 (Entrance.parse_prediction acc p)) as [Hv' Hc'].
  - intros q Hq Hvq. rewrite Hc. by apply Hafter.
  - simpl in Hv', Hc'. by rewrite Hv', Hc', Hv, Hc.
Qed.

Lemma parse_keeps_first_maximum_tie :
  let r := Entrance.parseRoboflowResponse
             (Document ([Fixtures.truck (60 # 100)] ++
                        Fixtures.car (90 # 100) ::
                        [Fixtures.truck (90 # 100); Fixtures.car (70 # 100)]))
             Entrance.no_detection in
  Entrance.vehicleType r = "car" ∧ Entrance.confidence r = 90 # 100.
Proof.
  apply (parse_keeps_first_maximum [Fixtures.truck (60 # 100)]
           [Fixtures.truck (90 # 100); Fixtures.car (70 # 100)]
           (Fixtures.car (90 # 100))).
  - reflexivity.
  - reflexivity.
  - intros q Hq _. apply list_elem_of_singleton in Hq. subst q. reflexivity.
  - intros q Hq _. apply elem_of_cons in Hq. destruct Hq as [->|Hq].
    + discriminate.
    + apply list_elem_of_singleton in Hq. subst q. discriminate.
Defined.

(** Two candidates tied at confidence 0: none is selected. *)
Lemma parse_tie_at_zero_selects_none :
  let preds := [Fixtures.car 0; Fixtures.truck 0] in
  is_vehicle (cls (Fixtures.car 0)) = true ∧
  is_vehicle (cls (Fixtures.truck 0)) = true ∧
  Entrance.vehicleType
    (Entrance.parseRoboflowResponse (Document preds) Entrance.no_detection)
  = EmptyString.
Proof. repeat split. Qed.

(* ===================================================================== *)
(** ** Reads that fail during the scan *)
(* ===================================================================== *)


Section OutageFacts.
Variable env : Env.

End OutageFacts.




(* ===================================================================== *)
(** ** Side effects of a check-in *)
(* ===================================================================== *)


Section SideEffects.
Variable env : Env.

Lemma lookup_landed_ne (b : bool) (p q : string) (v : Value)
    (m : gmap string Value) :
  p ≠ q → landed b <[p := v]> m !! q = m !! q.
Proof. intros Hne. destruct b; [|done]. by apply lookup_insert_ne. Qed.

Lemma checkin_path_off_ledger (i : Z) (leaf t : string) :
  Entrance.slot_path i +:+ leaf ≠ checkin_path t.
Proof. unfold Entrance.slot_path, checkin_path. discriminate. Qed.

Lemma int32_succ (n : Z) :
  - 2 ^ 31 ≤ n < 2 ^ 31 - 1 → int32 (int32 n + 1) = n + 1.
Proof.
  intros Hn. unfold int32.
  rewrite (Z.mod_small (n + 2 ^ 31)) by lia.
  rewrite Z.mod_small by lia. lia.
Qed.
End SideEffects.

(** C8, as the sketch has it. After a successful allocation (slot [r] found
    and the four claim requests issued), the check-in flow pushes exactly one
    access-log entry, and it increments the check-in counter of the vehicle
    type by one exactly when the counter can be read: when the [getInt] on
    [checkin_count/<type>] is answered with an integer [n], one [setInt] of
    [n + 1] follows (for [n] below the largest [int]); when that read fails
    (no such leaf, not an integer, or the call is lost) no counter request
    is issued and the counter stays as it was. *)
Theorem checkin_side_effects (env : Env) (t plate : string) (s : Cloud) :
  let r := fst (Entrance.findAvailableSlot env t s) in
  let k := calls (snd (Entrance.findAvailableSlot env t s)) in
  let s' := snd (Entrance.processVehicleCheckIn env t plate s) in
  0 ≤ r →
  ∃ now entry,
    match Claimed.counter_read env (db s) t (4 + k) with
    | Some n =>
        issued s' =
          (issued s ++ Claimed.claim r t plate now ++
           [SetInt (checkin_path t) (int32 (int32 n + 1));
            PushString "logs/access" entry])%list ∧
        (- 2 ^ 31 ≤ n < 2 ^ 31 - 1 → int32 (int32 n + 1) = n + 1) ∧
        (link env (5 + k) = true →
         db s' !! checkin_path t = Some (VInt (int32 (int32 n + 1))))
    | None =>
        issued s' =
          (issued s ++ Claimed.claim r t plate now ++
           [PushString "logs/access" entry])%list ∧
        db s' !! checkin_path t = db s !! checkin_path t
    end ∧
    (∀ p, p ≠ "logs/access" → lists s' !! p = lists s !! p) ∧
    (link env (pred (calls s')) = true →
     lists s' !!! "logs/access" = (lists s !!! "logs/access" ++ [entry])%list).
Proof.
  intros r k s' Hr. subst r k s'.
  unfold Entrance.processVehicleCheckIn, bind.
  pose proof (scan_frame env 11 0 t s) as (Hdb & Hl & Hi & _).
  fold (Entrance.findAvailableSlot env t s) in Hdb, Hl, Hi.
  destruct (Entrance.findAvailableSlot env t s) as [r s1]. simpl in *.
  apply Z.leb_le in Hr. rewrite Hr.
  unfold Entrance.assignSlot, Entrance.incrementCheckinCount,
    Entrance.logAccess, setBool, setString, setInt, store, millis, getInt,
    fetch, pushString, bind, ret.
  cbn [fst snd db lists issued calls].
  unfold Claimed.counter_read. fold (checkin_path t).
  rewrite !lookup_landed_ne by apply checkin_path_off_ledger.
  rewrite Hdb, Hl, Hi.
  exists (uptime env (S (S (S (calls s1)))) `mod` 2 ^ 32).
  destruct (link env (S (S (S (S (calls s1)))))) eqn:L4;
    [destruct (db s !! checkin_path t) as [[| |n]|] eqn:Ec|];
    eexists; cbn [fst snd db lists issued calls Init.Nat.pred];
    rewrite ?lookup_landed_ne by apply checkin_path_off_ledger;
    repeat split;
    first
      [ by rewrite <- !app_assoc
      | by apply int32_succ
      | done
      | by (intros p Hp; unfold landed;
            match goal with |- context [link ?e ?c] => destruct (link e c) end;
            [|done]; rewrite lookup_insert_ne)
      | by (intros ->; unfold landed, lookup_total, map_lookup_total;
            rewrite ?lookup_insert_eq) ].
Qed.

Lemma checkin_side_effects_counted :
  let s := Fixtures.fresh Fixtures.lot_2_5 in
  let r := fst (Entrance.findAvailableSlot Fixtures.steady "car" s) in
  let k := calls (snd (Entrance.findAvailableSlot Fixtures.steady "car" s)) in
  let s' := snd (Entrance.processVehicleCheckIn Fixtures.steady "car"
                   "PLATE_DETECTED" s) in
  0 ≤ r ∧
  ∃ now entry,
    match Claimed.counter_read Fixtures.steady (db s) "car" (4 + k) with
    | Some n =>
        issued s' =
          (issued s ++ Claimed.claim r "car" "PLATE_DETECTED" now ++
           [SetInt (checkin_path "car") (int32 (int32 n + 1));
            PushString "logs/access" entry])%list ∧
        (- 2 ^ 31 ≤ n < 2 ^ 31 - 1 → int32 (int32 n + 1) = n + 1) ∧
        (link Fixtures.steady (5 + k) = true →
         db s' !! checkin_path "car" = Some (VInt (int32 (int32 n + 1))))
    | None =>
        issued s' =
          (issued s ++ Claimed.claim r "car" "PLATE_DETECTED" now ++
           [PushString "logs/access" entry])%list ∧
        db s' !! checkin_path "car" = db s !! checkin_path "car"
    end ∧
    (∀ p, p ≠ "logs/access" → lists s' !! p = lists s !! p) ∧
    (link Fixtures.steady (pred (calls s')) = true →
     lists s' !!! "logs/access" = (lists s !!! "logs/access" ++ [entry])%list).
Proof.
  split.
  - vm_compute. discriminate.
  - apply (checkin_side_effects Fixtures.steady "car" "PLATE_DETECTED"
             (Fixtures.fresh Fixtures.lot_2_5)).
    vm_compute. discriminate.
Defined.

Example checkin_counts_car_5 :
  let s' := snd (Entrance.processVehicleCheckIn Fixtures.steady "car"
                   "PLATE_DETECTED" (Fixtures.fresh Fixtures.lot_2_5)) in
  db s' !! checkin_path "car" = Some (VInt 5) ∧
  length (lists s' !!! "logs/access") = 1%nat.
Proof. vm_compute. done. Qed.

(** A slot is claimed and logged, yet the counter is not incremented: the
    database has no [checkin_count] node, so the read fails and no counter
    request is sent. *)
Lemma checkin_counter_not_incremented :
  let s := Fixtures.fresh Fixtures.lot_no_counter in
  let s' := snd (Entrance.processVehicleCheckIn Fixtures.steady "car"
                   EmptyString s) in
  fst (Entrance.findAvailableSlot Fixtures.steady "car" s) = 0 ∧
  db s' !! occupied_path 0 = Some (VBool true) ∧
  length (lists s' !!! "logs/access") = 1%nat ∧
  db s' !! checkin_path "car" = None ∧
  filter (λ w, bool_decide (target w = checkin_path "car")) (issued s') = [].
Proof. vm_compute. repeat split. Qed.

(* ===================================================================== *)
(** ** The Occupancy Tracker *)
(* ===================================================================== *)

Section TrackerFacts.
Variable env : Env.

Lemma landed_insert_id (b : bool) (p : string) (v : Value)
    (m : gmap string Value) :
  m !! p = Some v → landed b <[p := v]> m = m.
Proof. intros H. destruct b; [|done]. by apply insert_id. Qed.

Lemma leaves :
  occupied_leaf = "parking_spots/slot_0/occupied" ∧
  vehicle_type_leaf = "parking_spots/slot_0/vehicle_type" ∧
  license_plate_leaf = "parking_spots/slot_0/license_plate" ∧
  entry_time_leaf = "parking_spots/slot_0/entry_time".
Proof. repeat split; vm_compute; reflexivity. Qed.

(** The vacate path, call by call. *)
Lemma vacate_run s :
  SlotCamera.updateSlotOccupancy env false s =
  (tt,
   {| db := landed (link env (3 + calls s)) <[entry_time_leaf := VInt 0]>
             (landed (link env (2 + calls s))
                <[license_plate_leaf := VString EmptyString]>
                (landed (link env (1 + calls s))
                   <[vehicle_type_leaf := VString EmptyString]>
                   (landed (link env (calls s))
                      <[occupied_leaf := VBool false]> (db s))));
      lists := lists s;
      issued := (issued s ++ vacate)%list;
      calls := 4 + calls s |}).
Proof.
  unfold SlotCamera.updateSlotOccupancy, setBool, setString, setInt, store,
    bind. cbn [fst snd db lists issued calls].
  f_equal. f_equal. unfold vacate. by rewrite <- !app_assoc.
Qed.


(** The database a vacate leaves when its four calls get through. *)
Lemma vacated_db s :
  online env (calls s) 4 →
  db (snd (SlotCamera.updateSlotOccupancy env false s)) =
  <[entry_time_leaf := VInt 0]>
    (<[license_plate_leaf := VString EmptyString]>
       (<[vehicle_type_leaf := VString EmptyString]>
          (<[occupied_leaf := VBool false]> (db s)))).
Proof.
  intros Hup. rewrite vacate_run. simpl.
  by rewrite !Hup by lia.
Qed.
End TrackerFacts.



(** C9. Idempotent re-vacate: once the vacate path has been applied (its
    four writes got through), applying it again leaves the database, hence
    the slot record, and the push lists as the first application left them,
    whether or not the second series of writes gets through. *)
Theorem vacate_idempotent (env : Env) (s : Cloud) :
  online env (calls s) 4 →
  let once := snd (SlotCamera.updateSlotOccupancy env false s) in
  let twice := snd (SlotCamera.updateSlotOccupancy env false once) in
  db twice = db once ∧ lists twice = lists once.
Proof.
  intros Hup once twice. subst twice.
  rewrite (vacate_run env once). cbn [snd db lists]. split; [|done].
  subst once. rewrite (vacated_db env s Hup).
  destruct leaves as (-> & -> & -> & ->).
  rewrite (landed_insert_id _ "parking_spots/slot_0/occupied")
    by by simplify_map_eq.
  rewrite (landed_insert_id _ "parking_spots/slot_0/vehicle_type")
    by by simplify_map_eq.
  rewrite (landed_insert_id _ "parking_spots/slot_0/license_plate")
    by by simplify_map_eq.
  by rewrite (landed_insert_id _ "parking_spots/slot_0/entry_time")
    by by simplify_map_eq.
Qed.

Lemma vacate_idempotent_slot0 :
  let s := Fixtures.fresh Fixtures.lot_slot0_taken in
  let once := snd (SlotCamera.updateSlotOccupancy Fixtures.steady false s) in
  let twice := snd (SlotCamera.updateSlotOccupancy Fixtures.steady false once) in
  db twice = db once ∧ lists twice = lists once.
Proof.
  apply (vacate_idempotent Fixtures.steady
           (Fixtures.fresh Fixtures.lot_slot0_taken)).
  intros k _. reflexivity.
Defined.

Section PassFacts.
Variable env : Env.






(** What a pass makes of the device depends on the database through the
    call counter alone. *)
Lemma loop_local shot d s1 s2 :
  calls s1 = calls s2 →
  fst (SlotCamera.loop env shot d s1) = fst (SlotCamera.loop env shot d s2) ∧
  calls (snd (SlotCamera.loop env shot d s1)) =
  calls (snd (SlotCamera.loop env shot d s2)).
Proof.
  destruct s1 as [m1 l1 i1 c1], s2 as [m2 l2 i2 c2]. simpl. intros <-.
  unfold SlotCamera.loop, SlotCamera.heartbeat, SlotCamera.poll,
    SlotCamera.updateSlotOccupancy, millis, setBool, setString, setInt,
    store, bind, ret.
  cbn [fst snd calls].
  destruct (30000 <? _); cbn [fst snd calls SlotCamera.lastCheckTime];
    (destruct (_ <? SlotCamera.CHECK_INTERVAL_MS); [done|]);
    destruct shot as [| |response]; try done;
    cbn [SlotCamera.previousOccupied];
    (destruct (negb _); [|done]);
    by destruct (SlotCamera.detectVehiclePresence response).
Qed.

Lemma run_local shots : ∀ d s1 s2,
  calls s1 = calls s2 →
  fst (SlotCamera.run env shots d s1) = fst (SlotCamera.run env shots d s2).
Proof.
  induction shots as [|shot shots IH]; intros d s1 s2 Hc; [done|].
  simpl. unfold bind.
  destruct (loop_local shot d s1 s2 Hc) as [Hd Hc'].
  destruct (SlotCamera.loop env shot d s1) as [d1 s1'].
  destruct (SlotCamera.loop env shot d s2) as [d2 s2'].
  simpl in Hd, Hc'. subst d2. by apply IH.
Qed.
End PassFacts.




(** C10. Cold start: when the read of the slot's [occupied] leaf made by
    [setup] fails (the call is lost, or the leaf is missing or is no
    boolean), [previousOccupied] keeps its initial value [false]. No pass of
    [loop] reads it back: each poll sets it from its own decision alone, and
    the device state after any series of passes is the same whatever the
    database holds. *)
Theorem cold_start_default (env : Env) (s : Cloud) :
  (link env (3 + calls s) = false ∨
   ∀ b, db s !! (SlotCamera.slot_path +:+ "/occupied") ≠ Some (VBool b)) →
  SlotCamera.previousOccupied (fst (SlotCamera.setup env SlotCamera.power_on s))
  = false ∧
  (∀ shot d s0,
     SlotCamera.previousOccupied (fst (SlotCamera.poll env shot d s0)) =
     match presence shot with
     | Some now => now
     | None => SlotCamera.previousOccupied d
     end) ∧
  (∀ shots d s1 s2,
     calls s1 = calls s2 →
     fst (SlotCamera.run env shots d s1) = fst (SlotCamera.run env shots d s2)).
Proof.
  intros Hfail. repeat split.
  - unfold SlotCamera.setup, SlotCamera.initFirebase, getBool, fetch,
      setString, store, bind, ret.
    cbn [fst snd db calls].
    rewrite !lookup_landed_ne by discriminate.
    change (3 + calls s)%nat with (S (S (S (calls s)))) in Hfail.
    destruct Hfail as [->|Hnone]; [done|].
    destruct (link env _); [|done].
    destruct (db s !! _) as [[b| |]|] eqn:E; try done.
    by destruct (Hnone b).
  - intros shot d s0. destruct shot as [| |response]; try done.
    unfold SlotCamera.poll, presence.
    destruct (SlotCamera.detectVehiclePresence response),
      (SlotCamera.previousOccupied d) eqn:E; simpl; try done;
      unfold bind; by destruct (SlotCamera.updateSlotOccupancy env _ s0).
  - intros shots d s1 s2. apply run_local.
Qed.

Lemma cold_start_default_blackout :
  db (Fixtures.fresh Fixtures.lot_slot0_taken) !!
    (SlotCamera.slot_path +:+ "/occupied") = Some (VBool true) ∧
  SlotCamera.previousOccupied
    (fst (SlotCamera.setup Fixtures.blackout SlotCamera.power_on
            (Fixtures.fresh Fixtures.lot_slot0_taken))) = false ∧
  (∀ shot d s0,
     SlotCamera.previousOccupied
       (fst (SlotCamera.poll Fixtures.blackout shot d s0)) =
     match presence shot with
     | Some now => now
     | None => SlotCamera.previousOccupied d
     end) ∧
  (∀ shots d s1 s2,
     calls s1 = calls s2 →
     fst (SlotCamera.run Fixtures.blackout shots d s1) =
     fst (SlotCamera.run Fixtures.blackout shots d s2)).
Proof.
  split; [vm_compute; reflexivity|].
  apply (cold_start_default Fixtures.blackout
           (Fixtures.fresh Fixtures.lot_slot0_taken)).
  left. reflexivity.
Defined.
